(** * The Now monad of hareactive (src/Now.ts)

    A shallow embedding of [Now.ts]: a [Now<A>] object is identified with
    its [run] method, and [run] is a computation in a small monad [JS] of
    host effects: it reads the instant at which it is called, may throw,
    and records the observable effects it causes (actions started,
    behaviors read, stream listeners installed), each with the instant at
    which it happens.

    The collaborators [Future], [Behavior] and [Stream] are modules of
    their own, which [Now.ts] only imports; they are modelled from the
    specification, in the denotational style usual for FRP: a future is
    its occurrence, a behavior a function of time, a stream its list of
    occurrences. *)

From Stdlib Require Import List Arith Lia ZArith Bool Permutation Sorted.
Import ListNotations.

Set Implicit Arguments.

(** ** Host environment: time, errors, observable effects *)

Definition Time := nat.

(** Values that can be thrown, or with which a promise can be rejected. *)
Inductive Err : Type :=
| TypeError
| UserError (code : nat).

(** Identity of a stream: either one that exists outside this module, or
    the stream created by [new PerformIOStream(s)] at some instant. *)
Inductive Origin : Type :=
| External (n : nat)
| PerformIOOf (source : Origin) (created : Time).

(** The effects an observer can see, stamped with their instant. *)
Inductive Event : Type :=
| EvRunIO (action : nat) (t : Time)          (* runIO(io) started action *)
| EvAt (behavior : nat) (t : Time)           (* at(b) read behavior *)
| EvAddListener (source : Origin) (t : Time) (* s.addListener(..) *).

Definition event_time (e : Event) : Time :=
  match e with
  | EvRunIO _ t => t
  | EvAt _ t => t
  | EvAddListener _ t => t
  end.

(** Outcome of evaluating a JavaScript expression. *)
Inductive Completion (A : Type) : Type :=
| Normal (a : A)
| Throw (e : Err).
Arguments Throw {A} e.

(** A JavaScript computation: called at an instant, it completes (normally
    or by throwing) and has caused a list of effects, in program order. *)
Definition JS (A : Type) : Type := Time -> Completion A * list Event.

Definition ret {A} (a : A) : JS A := fun _ => (Normal a, []).

Definition throw {A} (e : Err) : JS A := fun _ => (Throw e, []).

Definition bind {A B} (c : JS A) (k : A -> JS B) : JS B :=
  fun t =>
    match c t with
    | (Normal a, es) =>
        match k a t with
        | (r, es') => (r, es ++ es')
        end
    | (Throw e, es) => (Throw e, es)
    end.

Declare Scope js_scope.
Delimit Scope js_scope with js.
Notation "x <- c ;; k" := (bind c (fun x => k))
  (at level 61, c at next level, right associativity) : js_scope.
Open Scope js_scope.

(** Two computations evaluate identically: at every instant, the same
    completion and the same effects. *)
Definition same_evaluation {A} (c1 c2 : JS A) : Prop :=
  forall t, c1 t = c2 t.

Definition effects {A} (r : Completion A * list Event) : list Event := snd r.

(** ** jabz/io and host promises (external library, as used by Now.ts) *)

(** The eventual fate of a promise. *)
Inductive Promise (A : Type) : Type :=
| Pending
| Fulfilled (t : Time) (a : A)
| Rejected (t : Time) (e : Err).
Arguments Pending {A}.
Arguments Rejected {A} t e.

(** What executing an action leads to, as a delay after its start. *)
Inductive IOResult (A : Type) : Type :=
| Hangs
| Completes (delay : nat) (a : A)
| Fails (delay : nat) (e : Err).
Arguments Hangs {A}.
Arguments Fails {A} delay e.

(** An [IO<A>]: a description of a side-effecting action. *)
Record IO (A : Type) : Type := mkIO {
  io_name : nat;
  io_exec : Time -> IOResult A
}.

(** [runIO(io)]: starts the action now and returns the promise of its
    completion. *)
Definition runIO {A} (io : IO A) : JS (Promise A) :=
  fun t =>
    (Normal match io_exec io t with
            | Hangs => Pending
            | Completes d a => Fulfilled (t + d) a
            | Fails d e => Rejected (t + d) e
            end,
     [EvRunIO (io_name io) t]).

(** [p.then(cb)] for a callback that delivers a value downstream: the
    delivery, if any, with its instant.  A rejection has no handler. *)
Definition Promise_then {A} (p : Promise A) : option (Time * A) :=
  match p with
  | Fulfilled t a => Some (t, a)
  | _ => None
  end.

(** [new Promise((resolve, reject) => body)], for an executor [body] that
    hands [resolve] to a subscription: the promise is rejected when the
    executor throws, fulfilled when [resolve] is called, pending
    otherwise. *)
Definition Promise_new {A} (body : JS (option (Time * A))) : JS (Promise A) :=
  fun t =>
    match body t with
    | (Throw e, es) => (Normal (Rejected t e), es)
    | (Normal (Some (t', a)), es) => (Normal (Fulfilled t' a), es)
    | (Normal None, es) => (Normal Pending, es)
    end.

(** ** Collaborators of the Now monad *)

(** Modelled from the spec: the Future collaborator (module ./Future,
    imported by Now.ts).  "A container that represents a value that will
    become available at most once, at an unknown future instant; supports
    mapping and a subscription callback fired exactly once, at
    occurrence"; a failure of a wrapped action is "turned into a failed
    Future". *)
Inductive Future (A : Type) : Type :=
| Never
| Occurs (t : Time) (a : A)
| Failed (t : Time) (e : Err).
Arguments Never {A}.
Arguments Failed {A} t e.

(** Modelled from the spec: [fromPromise] of ./Future, the Future that
    occurs once the promise's asynchronous completion arrives. *)
Definition fromPromise {A} (p : Promise A) : JS (Future A) :=
  ret match p with
      | Pending => Never
      | Fulfilled t a => Occurs t a
      | Rejected t e => Failed t e
      end.

(** Modelled from the spec: [Future.map] of ./Future.  The mapped future
    is returned at once; the function is applied within the notification
    that delivers the occurrence (at once when the future has occurred
    already), and its effects happen at that instant.  A failure stays a
    failure.  The spec does not say what a throw of the function leads
    to; here it makes the mapped future fail, and the properties below
    are stated for functions that complete normally, so that none rests
    on this case. *)
Definition Future_map {A B} (f : A -> JS B) (fut : Future A) : JS (Future B) :=
  fun t =>
    match fut with
    | Never => (Normal Never, [])
    | Failed t' e => (Normal (Failed t' e), [])
    | Occurs t' a =>
        match f a (Nat.max t t') with
        | (Normal b, es) => (Normal (Occurs (Nat.max t t') b), es)
        | (Throw e, es) => (Normal (Failed (Nat.max t t') e), es)
        end
    end.

(** Modelled from the spec: [Future.subscribe] of ./Future, "callback
    fired at most once, at occurrence".  The result is the call the
    callback receives, if any. *)
Definition Future_subscribe {A} (fut : Future A) : JS (option (Time * A)) :=
  fun t =>
    (Normal match fut with
            | Occurs t' a => Some (Nat.max t t', a)
            | _ => None
            end,
     []).

(** Modelled from the spec: the Behavior collaborator (./Behavior), "a
    continuous time-varying value; supports sampling its value right
    now". *)
Record Behavior (A : Type) : Type := mkBehavior {
  b_name : nat;
  b_value : Time -> A
}.

(** Modelled from the spec: [at] of ./Behavior, the synchronous read of
    the current value. *)
Definition Behavior_at {A} (b : Behavior A) : JS A :=
  fun t => (Normal (b_value b t), [EvAt (b_name b) t]).

(** Modelled from the spec: the Stream collaborator (./Stream), "a
    discrete sequence of occurrences; supports attaching a downstream
    listener and pushing a new occurrence into it". *)
Record Stream (A : Type) : Type := mkStream {
  s_origin : Origin;
  s_occs : list (Time * A)
}.

(** Modelled from the spec: [Stream.addListener] of ./Stream.  The result
    is the sequence of pushes the listener receives: the occurrences from
    the instant of the subscription on. *)
Definition Stream_addListener {A} (s : Stream A) : JS (list (Time * A)) :=
  fun t =>
    (Normal (filter (fun o => t <=? fst o) (s_occs s)),
     [EvAddListener (s_origin s) t]).

(** Occurrences reach the listeners of a stream in the order of their
    instants; among equal instants, in the order they were produced. *)
Fixpoint insert_occ {A} (o : Time * A) (l : list (Time * A)) : list (Time * A) :=
  match l with
  | [] => [o]
  | o' :: l' => if fst o <? fst o' then o :: l else o' :: insert_occ o l'
  end.

Definition in_time_order {A} (l : list (Time * A)) : list (Time * A) :=
  fold_right insert_occ [] (rev l).

(** ** Now.ts *)

(** [abstract class Now<A>]: the one abstract method is [run]. *)
Record Now (A : Type) : Type := mkNow {
  Now_run : JS A
}.

(** [class OfNow]: [run() { return this.value; }] *)
Definition OfNow {A} (value : A) : Now A :=
  mkNow (ret value).

(** [class ChainNow]: [run() { return this.f(this.first.run()).run(); }] *)
Definition ChainNow {A B} (first : Now A) (f : A -> JS (Now B)) : Now B :=
  mkNow (a <- Now_run first ;; n <- f a ;; Now_run n).

(** [class AsyncNow]: [run() { return fromPromise(runIO(this.comp)); }] *)
Definition AsyncNow {A} (comp : IO A) : Now (Future A) :=
  mkNow (p <- runIO comp ;; fromPromise p).

(** [class SampleNow]: [run() { return at(this.b); }] *)
Definition SampleNow {A} (b : Behavior A) : Now A :=
  mkNow (Behavior_at b).

(** [PerformIOStream.push(io)]:
    [runIO(io).then((a) => this.child.push(a))].  The result is the push
    the children receive, if any. *)
Definition PerformIOStream_push {A} (io : IO A) : JS (option (Time * A)) :=
  p <- runIO io ;; ret (Promise_then p).

(** All the pushes a listener receives, each handled at its instant: the
    pushes forwarded to the children, and the effects caused. *)
Fixpoint handle_pushes {X A} (push : X -> JS (option (Time * A)))
    (pushes : list (Time * X)) : list (Time * A) * list Event :=
  match pushes with
  | [] => ([], [])
  | (t, x) :: rest =>
      let (out, es) := handle_pushes push rest in
      match push x t with
      | (Normal (Some o), es0) => (o :: out, es0 ++ es)
      | (_, es0) => (out, es0 ++ es)
      end
  end.

(** [class PerformIOStream]:
    [constructor(s) { super(); s.addListener(this); }] *)
Definition PerformIOStream {A} (s : Stream (IO A)) : JS (Stream A) :=
  fun t =>
    match Stream_addListener s t with
    | (Normal pushes, es) =>
        let (out, es') := handle_pushes PerformIOStream_push pushes in
        (Normal (mkStream (PerformIOOf (s_origin s) t) (in_time_order out)),
         es ++ es')
    | (Throw e, es) => (Throw e, es)
    end.

(** [class PerformStreamNow]:
    [run() { return new PerformIOStream(this.s); }] *)
Definition PerformStreamNow {A} (s : Stream (IO A)) : Now (Stream A) :=
  mkNow (PerformIOStream s).

(** [function run(now) { return now.run(); }] *)
Definition run {A} (now : Now A) : JS A := Now_run now.

(** [class PlanNow]: [run() { return this.future.map(run); }] *)
Definition PlanNow {A} (future : Future (Now A)) : Now (Future A) :=
  mkNow (Future_map run future).

(** The methods of [Now] and the exported functions.  Each is a call, so
    a computation of [JS]. *)

(** [of(b) { return new OfNow(b); }] (method and static). *)
Definition Now_of {B} (b : B) : JS (Now B) := ret (OfNow b).

(** [chain(f) { return new ChainNow(this, f); }] *)
Definition Now_chain {A B} (this : Now A) (f : A -> JS (Now B)) : JS (Now B) :=
  ret (ChainNow this f).

(** [flatten(now) { return now.chain((n) => n); }] *)
Definition Now_flatten {A} (this : Now A) (now : Now (Now A)) : JS (Now A) :=
  Now_chain now (fun n => ret n).

(** [map(f) { return this.chain((a) => this.of(f(a))); }] *)
Definition Now_map {A B} (this : Now A) (f : A -> JS B) : JS (Now B) :=
  Now_chain this (fun a => b <- f a ;; Now_of b).

(** [mapTo(b) { return this.chain((_) => this.of(b)); }] *)
Definition Now_mapTo {A B} (this : Now A) (b : B) : JS (Now B) :=
  Now_chain this (fun _ => Now_of b).

(** [async(comp) { return new AsyncNow(comp); }] *)
Definition async {A} (comp : IO A) : JS (Now (Future A)) := ret (AsyncNow comp).

(** [sample(b) { return new SampleNow(b); }] *)
Definition sample {A} (b : Behavior A) : JS (Now A) := ret (SampleNow b).

(** [performStream(s) { return new PerformStreamNow(s); }] *)
Definition performStream {A} (s : Stream (IO A)) : JS (Now (Stream A)) :=
  ret (PerformStreamNow s).

(** [plan(future) { return new PlanNow(future); }] *)
Definition plan {A} (future : Future (Now A)) : JS (Now (Future A)) :=
  ret (PlanNow future).

(** [runNow(now)]:
    [new Promise((resolve, reject) => { now.run().subscribe(resolve); })] *)
Definition runNow {A} (now : Now (Future A)) : JS (Promise A) :=
  Promise_new (fut <- Now_run now ;; Future_subscribe fut).

(** [lift(f: Function, ...ms: any[])] works on untyped values. *)
Section Lift.

(** The values of type [any]. *)
Variable V : Type.

(** A JavaScript function: its declared parameter count [f.length] and
    what a call with a list of arguments does. *)
Record JSFunction : Type := mkFunction {
  f_length : nat;
  f_call : list V -> JS V
}.

(** Reading a property of [ms[i]]: a TypeError when [ms[i]] is
    undefined. *)
Definition member (ms : list (Now V)) (i : nat) : JS (Now V) :=
  match nth_error ms i with
  | Some m => ret m
  | None => throw TypeError
  end.

(** [lift(f, ...ms)]: [const {of} = ms[0]; switch (f.length) { ... }].
    The result is [None] when the switch falls through and the call
    returns undefined. *)
Definition Now_lift (this : Now V) (f : JSFunction) (ms : list (Now V))
  : JS (option (Now V)) :=
  m0 <- member ms 0 ;;
  match f_length f with
  | 1 =>
      r <- Now_map m0 (fun a => f_call f [a]) ;;
      ret (Some r)
  | 2 =>
      r <- Now_chain m0 (fun a =>
             m1 <- member ms 1 ;;
             Now_chain m1 (fun b =>
               c <- f_call f [a; b] ;; Now_of c)) ;;
      ret (Some r)
  | 3 =>
      r <- Now_chain m0 (fun a =>
             m1 <- member ms 1 ;;
             Now_chain m1 (fun b =>
               m2 <- member ms 2 ;;
               Now_chain m2 (fun c =>
                 d <- f_call f [a; b; c] ;; Now_of d))) ;;
      ret (Some r)
  | _ => ret None
  end.

End Lift.

(** ** Data of the test suite, and causality *)

(** The function [(n, m, p) => n + m + p] on numbers. *)
Definition add3 : JSFunction Z :=
  mkFunction 3 (fun args =>
    match args with
    | [n; m; p] => ret (n + m + p)%Z
    | _ => throw TypeError
    end).

(** A function that declares four parameters. *)
Definition add4 : JSFunction Z :=
  mkFunction 4 (fun args =>
    match args with
    | [n; m; p; q] => ret (n + m + p + q)%Z
    | _ => throw TypeError
    end).

(** An action that fails three instants after it is started. *)
Definition failing_action : IO Z :=
  mkIO 7 (fun _ => Fails 3 (UserError 1)).

(** An action that never completes, and one that completes with 22 ten
    instants after it is started. *)
Definition hanging_action : IO Z := mkIO 1 (fun _ => Hangs).
Definition slow_action : IO Z := mkIO 2 (fun _ => Completes 10 22%Z).

(** The action of the test "runs io actions": it completes at once with
    its number plus 2. *)
Definition impure (n : Z) : IO Z :=
  mkIO (Z.to_nat n) (fun _ => Completes 0 (n + 2)%Z).

(** The program of the test "executes plan asynchronously".  The numbers
    of the test are JavaScript numbers: their type and the function
    [times2], the [n * 2] of [comp], are parameters. *)
Definition plan_prog {Num : Type} (times2 : Num -> Num) (fn : IO Num)
  : Now (Future Num) :=
  ChainNow (AsyncNow fn) (fun e =>
    fm <- Future_map (fun n => Now_of (times2 n)) e ;;
    p <- plan fm ;;
    Now_chain p (fun e2 => Now_of e2)).

(** The occurrences that one push received by a [PerformIOStream] leads to
    in that stream: the completion of its action, if it completes. *)
Definition completion_of {A} (o : Time * IO A) : list (Time * A) :=
  match io_exec (snd o) (fst o) with
  | Completes d a => [(fst o + d, a)]
  | _ => []
  end.

(** A computation is causal when every effect it records is stamped with
    an instant no earlier than the instant at which it is called. *)
Definition causal {A} (c : JS A) : Prop :=
  forall t e, In e (effects (c t)) -> t <= event_time e.

(** ** Properties *)

(** *** The monad of host computations *)

Lemma bind_ret_l {A B} (a : A) (k : A -> JS B) (t : Time) :
  bind (ret a) k t = k a t.
Proof.
  unfold bind, ret. destruct (k a t) as [r es]. reflexivity.
Qed.

Lemma bind_ret_r {A} (c : JS A) (t : Time) :
  bind c ret t = c t.
Proof.
  unfold bind, ret. destruct (c t) as [[a | e] es]; [|reflexivity].
  now rewrite app_nil_r.
Qed.

Lemma bind_assoc {A B C} (c : JS A) (k : A -> JS B) (h : B -> JS C) (t : Time) :
  bind (bind c k) h t = bind c (fun a => bind (k a) h) t.
Proof.
  unfold bind. destruct (c t) as [[a | e] es]; [|reflexivity].
  destruct (k a t) as [[b | e] es1]; [|reflexivity].
  destruct (h b t) as [r es2]. now rewrite app_assoc.
Qed.

Lemma bind_ext {A B} (c : JS A) (k k' : A -> JS B) (t : Time) :
  (forall a, k a t = k' a t) -> bind c k t = bind c k' t.
Proof.
  intros H. unfold bind. destruct (c t) as [[a | e] es]; [|reflexivity].
  now rewrite H.
Qed.

(** Normalisation of a computation applied to an instant: reassociate
    binds to the right and evaluate binds of [ret]. *)
Ltac js_norm := repeat first [rewrite bind_assoc | rewrite bind_ret_l].

(** Running a chain: run the first, call the continuation, run what it
    returns. *)
Lemma run_ChainNow {A B} (first : Now A) (f : A -> JS (Now B)) (t : Time) :
  run (ChainNow first f) t = (a <- run first ;; n <- f a ;; run n) t.
Proof. reflexivity. Qed.

(** *** C2 *)

(** C2: the Now monad satisfies the three monad laws up to evaluation.
    Running [of(a).chain(f)] evaluates identically to running [f(a)];
    running [m.chain(of)] evaluates identically to running [m]; running
    [m.chain(f).chain(g)] evaluates identically to running
    [m.chain(a => f(a).chain(g))]: same completion and same effects, at
    every instant. *)
Theorem Now_monad_laws :
  (forall A B (a : A) (f : A -> JS (Now B)),
      same_evaluation (m <- Now_of a ;; c <- Now_chain m f ;; run c)
                      (n <- f a ;; run n))
  /\ (forall A (m : Now A),
      same_evaluation (c <- Now_chain m (fun a => Now_of a) ;; run c)
                      (run m))
  /\ (forall A B C (m : Now A) (f : A -> JS (Now B)) (g : B -> JS (Now C)),
      same_evaluation
        (c1 <- Now_chain m f ;; c2 <- Now_chain c1 g ;; run c2)
        (c <- Now_chain m (fun a => n <- f a ;; Now_chain n g) ;; run c)).
Proof.
  split; [|split].
  - intros A B a f t.
    unfold Now_of, Now_chain. rewrite !bind_ret_l, run_ChainNow.
    unfold run at 1. simpl Now_run. now rewrite bind_ret_l.
  - intros A m t.
    unfold Now_of, Now_chain. rewrite bind_ret_l, run_ChainNow.
    transitivity (bind (run m) ret t); [|apply bind_ret_r].
    apply bind_ext. intros a. rewrite bind_ret_l.
    unfold run. simpl. reflexivity.
  - intros A B C m f g t.
    unfold Now_chain. rewrite !bind_ret_l, !run_ChainNow.
    change (run (ChainNow m f)) with (a <- run m ;; n <- f a ;; run n).
    rewrite bind_assoc. apply bind_ext. intros a.
    rewrite !bind_assoc. apply bind_ext. intros n.
    rewrite bind_ret_l, run_ChainNow. reflexivity.

Qed.

(** *** C10 *)

(** C10: for every Now [m] and every nested Now [nn], running
    [m.flatten(nn)] evaluates identically to running [nn] and then
    running the computation it yields; the receiver [m] is never
    evaluated: any other receiver gives the same computation, with the
    same completion and effects. *)
Theorem flatten_runs_argument_only :
  forall A (m : Now A) (nn : Now (Now A)),
    same_evaluation (c <- Now_flatten m nn ;; run c)
                    (n <- run nn ;; run n)
    /\ forall (m' : Now A),
        same_evaluation (c <- Now_flatten m nn ;; run c)
                        (c <- Now_flatten m' nn ;; run c).
Proof.
  intros A m nn.
  assert (H : forall this : Now A,
             same_evaluation (c <- Now_flatten this nn ;; run c)
                             (n <- run nn ;; run n)).
  { intros this t. unfold Now_flatten, Now_chain.
    rewrite bind_ret_l, run_ChainNow.
    apply bind_ext. intros n. now rewrite bind_ret_l. }
  split; [apply H|].
  intros m' t. now rewrite (H m t), (H m' t).
Qed.

(** The test "can flatten pure nows":
    [Now.of(0).flatten(Now.of(Now.of(12))).run()] is [12]. *)
Example flatten_pure_nows :
  forall t, (c <- Now_flatten (OfNow 0) (OfNow (OfNow 12)) ;; run c) t
            = (Normal 12, []).
Proof. reflexivity. Qed.

(** *** C5 *)

(** C5: for every behavior [b], evaluating [sample(b)] at an instant
    completes normally, at once, with the value [b] has at that instant
    (a plain value of the behavior's type, not a Future), the only effect
    being that one read of [b] at that instant. *)
Theorem sample_reads_current_value :
  forall A (b : Behavior A) (t : Time),
    (n <- sample b ;; run n) t = (Normal (b_value b t), [EvAt (b_name b) t]).
Proof.
  intros A b t. unfold sample. now rewrite bind_ret_l.
Qed.

(** *** C6 *)

(** C6: for every action [a], constructing [async(a)] starts nothing;
    evaluating it at an instant [t] starts [a] exactly once, at [t], and
    returns at once a Future, which occurs with value [v] exactly when the
    action started at [t] completes with [v], at the instant of that
    completion. *)
Theorem async_starts_action_when_run :
  forall A (a : IO A) (t0 t : Time),
    async a t0 = (Normal (AsyncNow a), [])
    /\ exists fut : Future A,
        run (AsyncNow a) t = (Normal fut, [EvRunIO (io_name a) t])
        /\ forall t' v,
            fut = Occurs t' v
            <-> exists d, io_exec a t = Completes d v /\ t' = t + d.
Proof.
  intros A a t0 t. split; [reflexivity|].
  unfold run, AsyncNow, Now_run, bind, runIO, fromPromise, ret.
  destruct (io_exec a t) as [|d v|d e] eqn:E; simpl; eexists; (split; [reflexivity|]);
    intros t' v'; split.
  - discriminate.
  - intros (d & H & _). discriminate.
  - intros H. injection H as <- <-. now exists d.
  - intros (d' & H & ->). now injection H as <- <-.
  - discriminate.
  - intros (d' & H & _). discriminate.
Qed.

(** *** C7 *)

(** C7: constructing a Now value performs no observable effect.  Each of
    [of], [chain], [map], [mapTo], [lift], [async], [sample], [plan] and
    [performStream], called at any instant with any arguments, has an
    empty list of effects (no action started, no behavior read, no
    listener installed): apart from [lift], which may throw or return
    undefined, it only returns the object that holds its arguments. *)
Theorem construction_has_no_effect :
  forall (t : Time),
    (forall A (a : A), Now_of a t = (Normal (OfNow a), []))
    /\ (forall A B (m : Now A) (f : A -> JS (Now B)),
          Now_chain m f t = (Normal (ChainNow m f), []))
    /\ (forall A B (m : Now A) (f : A -> JS B),
          Now_map m f t
          = (Normal (ChainNow m (fun a => b <- f a ;; Now_of b)), []))
    /\ (forall A B (m : Now A) (b : B),
          Now_mapTo m b t = (Normal (ChainNow m (fun _ => Now_of b)), []))
    /\ (forall V (this : Now V) (f : JSFunction V) (ms : list (Now V)),
          effects (Now_lift this f ms t) = [])
    /\ (forall A (a : IO A), async a t = (Normal (AsyncNow a), []))
    /\ (forall A (b : Behavior A), sample b t = (Normal (SampleNow b), []))
    /\ (forall A (F : Future (Now A)), plan F t = (Normal (PlanNow F), []))
    /\ (forall A (s : Stream (IO A)),
          performStream s t = (Normal (PerformStreamNow s), [])).
Proof.
  intros t. repeat split.
  intros V this f ms. unfold Now_lift, member.
  destruct ms as [|m0 ms]; [reflexivity|].
  destruct (f_length f) as [|[|[|[|k]]]]; reflexivity.
Qed.

(** *** C8 *)

(** C8: for a function [f] of declared parameter count 1, 2 or 3,
    [lift(f, m1, ..., mn)] returns a computation whose evaluation runs
    [m1], ..., [mn] from left to right (each once, the effects in that
    order, the first throw ending the evaluation) and completes with [f]
    called on their results.  The arity is the declared parameter count of
    [f]: further arguments are ignored.  In particular running
    [lift((n, m, p) => n + m + p, of(1), of(3), of(5))] yields 9. *)
Theorem lift_applies_function_left_to_right :
  (forall V (this m1 m2 m3 : Now V) (rest : list (Now V))
          (call : list V -> JS V),
      (exists r,
          (forall t, Now_lift this (mkFunction 1 call) (m1 :: rest) t
                     = (Normal (Some r), []))
          /\ same_evaluation (run r) (a <- run m1 ;; call [a]))
      /\ (exists r,
          (forall t, Now_lift this (mkFunction 2 call) (m1 :: m2 :: rest) t
                     = (Normal (Some r), []))
          /\ same_evaluation (run r)
               (a <- run m1 ;; b <- run m2 ;; call [a; b]))
      /\ (exists r,
          (forall t, Now_lift this (mkFunction 3 call)
                       (m1 :: m2 :: m3 :: rest) t
                     = (Normal (Some r), []))
          /\ same_evaluation (run r)
               (a <- run m1 ;; b <- run m2 ;; c <- run m3 ;;
                call [a; b; c])))
  /\ (forall t,
        (r <- Now_lift (OfNow 1%Z) add3 [OfNow 1%Z; OfNow 3%Z; OfNow 5%Z] ;;
         match r with
         | Some n => run n
         | None => throw TypeError
         end) t = (Normal 9%Z, [])).
Proof.
  split; [|reflexivity].
  intros V this m1 m2 m3 rest call.
  split; [|split]; eexists; (split; [intros t; reflexivity|]); intros t.
  - rewrite run_ChainNow. apply bind_ext. intros a.
    unfold Now_of. rewrite bind_assoc. simpl f_call.
    transitivity (bind (call [a]) ret t); [|apply bind_ret_r].
    apply bind_ext. intros b. now rewrite bind_ret_l.
  - rewrite run_ChainNow. apply bind_ext. intros a.
    change (member (m1 :: m2 :: rest) 1) with (ret m2).
    unfold Now_chain, Now_of. rewrite bind_assoc, !bind_ret_l, run_ChainNow.
    apply bind_ext. intros b. rewrite bind_assoc. simpl f_call.
    transitivity (bind (call [a; b]) ret t); [|apply bind_ret_r].
    apply bind_ext. intros c. now rewrite bind_ret_l.
  - rewrite run_ChainNow. apply bind_ext. intros a.
    change (member (m1 :: m2 :: m3 :: rest) 1) with (ret m2).
    unfold Now_chain, Now_of. rewrite bind_assoc, !bind_ret_l, run_ChainNow.
    apply bind_ext. intros b.
    change (member (m1 :: m2 :: m3 :: rest) 2) with (ret m3).
    rewrite bind_assoc, !bind_ret_l, run_ChainNow.
    apply bind_ext. intros c. rewrite bind_assoc. simpl f_call.
    transitivity (bind (call [a; b; c]) ret t); [|apply bind_ret_r].
    apply bind_ext. intros d. now rewrite bind_ret_l.
Qed.

(** The test "lifts over constant now", arities 1 and 2. *)
Example lift_square :
  forall t,
    (r <- Now_lift (OfNow 1%Z)
            (mkFunction 1 (fun args =>
               match args with [n] => ret (n * n)%Z | _ => throw TypeError end))
            [OfNow 3%Z] ;;
     match r with Some n => run n | None => throw TypeError end) t
    = (Normal 9%Z, []).
Proof. reflexivity. Qed.

Example lift_sum2 :
  forall t,
    (r <- Now_lift (OfNow 1%Z)
            (mkFunction 2 (fun args =>
               match args with [n; m] => ret (n + m)%Z | _ => throw TypeError end))
            [OfNow 1%Z; OfNow 3%Z] ;;
     match r with Some n => run n | None => throw TypeError end) t
    = (Normal 4%Z, []).
Proof. reflexivity. Qed.

(** *** C3 *)

(** C3, as stated, fails: [lift] called with a function of four declared
    parameters and four computations signals no error; the call completes
    normally and returns undefined. *)
Lemma lift_four_parameters_no_error :
  Now_lift (OfNow 0%Z) add4 [OfNow 1%Z; OfNow 2%Z; OfNow 3%Z; OfNow 4%Z] 0
  = (Normal None, [])
  /\ ~ (exists e es,
          Now_lift (OfNow 0%Z) add4
            [OfNow 1%Z; OfNow 2%Z; OfNow 3%Z; OfNow 4%Z] 0 = (Throw e, es)).
Proof.
  split; [reflexivity|].
  intros (e & es & H). discriminate H.
Qed.

(** C3, amended: for a function whose declared parameter count is outside
    1-3, [lift] called with at least one computation signals no error: it
    completes normally, returns undefined (no computation is built) and
    has no effect.  Only a call without any computation throws, a
    TypeError from reading [ms[0]]. *)
Theorem lift_unsupported_arity_returns_undefined :
  forall V (this : Now V) (f : JSFunction V) (ms : list (Now V)) (t : Time),
    f_length f < 1 \/ 3 < f_length f ->
    Now_lift this f ms t
    = match ms with
      | [] => (Throw TypeError, [])
      | _ :: _ => (Normal None, [])
      end.
Proof.
  intros V this f ms t H. unfold Now_lift.
  destruct ms as [|m0 ms]; [reflexivity|].
  destruct (f_length f) as [|[|[|[|k]]]]; try lia; reflexivity.
Qed.

Lemma lift_unsupported_arity_returns_undefined_witness :
  (f_length add4 < 1 \/ 3 < f_length add4)
  /\ Now_lift (OfNow 0%Z) add4 [OfNow 1%Z] 5 = (Normal None, []).
Proof.
  split.
  - right. simpl. lia.
  - apply (lift_unsupported_arity_returns_undefined
             (OfNow 0%Z) add4 [OfNow 1%Z] 5).
    right. simpl. lia.
Defined.

(** *** C4 *)

(** C4, as stated, fails: when the action wrapped by [async] fails, the
    promise returned by [runNow] is not rejected; it is never settled. *)
Lemma runNow_failed_action_not_rejected :
  (n <- async failing_action ;; runNow n) 0 = (Normal Pending, [EvRunIO 7 0])
  /\ ~ (exists t e es,
          (n <- async failing_action ;; runNow n) 0
          = (Normal (Rejected t e), es)).
Proof.
  split; [reflexivity|].
  intros (t & e & es & H). discriminate H.
Qed.

(** C4, amended: [runNow] evaluates the computation once, at once.  Its
    promise is rejected exactly when that evaluation itself throws, with
    the value thrown; it is fulfilled with the value of the Future the
    evaluation yields, when that Future occurs; otherwise it stays
    pending.  So when the action wrapped by [async] fails, the failure is
    not surfaced: the promise is never settled. *)
Theorem runNow_settles_on_occurrence :
  forall A (now : Now (Future A)) (t : Time),
    runNow now t
    = match run now t with
      | (Throw e, es) => (Normal (Rejected t e), es)
      | (Normal (Occurs t' a), es) => (Normal (Fulfilled (Nat.max t t') a), es)
      | (Normal _, es) => (Normal Pending, es)
      end
    /\ forall (a : IO A) d e,
        io_exec a t = Fails d e ->
        (n <- async a ;; runNow n) t
        = (Normal Pending, [EvRunIO (io_name a) t]).
Proof.
  intros A now t. split.
  - unfold runNow, Promise_new, run, bind, Future_subscribe.
    destruct (Now_run now t) as [[[|t' a|t' e]|e] es];
      simpl; rewrite ?app_nil_r; reflexivity.
  - intros a d e H. unfold async. rewrite bind_ret_l.
    unfold runNow, Promise_new, AsyncNow, Now_run, bind, runIO, fromPromise,
      Future_subscribe, ret.
    rewrite H. reflexivity.
Qed.

Lemma runNow_settles_on_occurrence_witness :
  io_exec failing_action 0 = Fails 3 (UserError 1)
  /\ (n <- async failing_action ;; runNow n) 0 = (Normal Pending, [EvRunIO 7 0]).
Proof.
  split; [reflexivity|].
  apply (proj2 (runNow_settles_on_occurrence (AsyncNow failing_action) 0)
           failing_action 3 (UserError 1)).
  reflexivity.
Defined.

(** The test "async works with runNow": the promise resolves with the
    value with which the action completes. *)
Example runNow_async_12 :
  forall t d,
    (n <- async (mkIO 0 (fun _ => Completes d 12%Z)) ;; runNow n) t
    = (Normal (Fulfilled (t + d) 12%Z), [EvRunIO 0 t]).
Proof.
  intros t d. unfold async. rewrite bind_ret_l.
  unfold runNow, Promise_new, AsyncNow, Now_run, bind, runIO, fromPromise,
    Future_subscribe, ret. simpl.
  now replace (Nat.max t (t + d)) with (t + d) by lia.
Qed.

(** *** C1 *)

(** C1, as stated, fails: the Future returned by [plan(F)] occurs as soon
    as [F] has occurred and its payload has been evaluated; it does not
    wait for the Future that this evaluation yields.  With a payload that
    ends in [async] of an action that never completes, the returned Future
    occurs at the occurrence of [F], its value a Future that never
    occurs; with an action that takes ten instants, it occurs at instant
    5 while the inner Future occurs at instant 15, and its value is that
    pending Future, not 22. *)
Lemma plan_does_not_wait_for_inner_future :
  (n <- plan (Occurs 5 (AsyncNow hanging_action)) ;; run n) 0
  = (Normal (Occurs 5 Never), [EvRunIO 1 5])
  /\ (n <- plan (Occurs 5 (AsyncNow slow_action)) ;; run n) 0
     = (Normal (Occurs 5 (Occurs 15 22%Z)), [EvRunIO 2 5]).
Proof. split; reflexivity. Qed.

(** C1, amended: when [F] occurs and the evaluation of its payload at
    that instant (the instant of the evaluation of [plan(F)] when [F] has
    occurred before) completes normally, evaluating [plan(F)] returns at
    once a new Future that occurs at that instant, its value the result
    of the payload as it is: a result that is itself a Future becomes the
    value without being awaited; the only effects are those of the
    payload.  When [F] does not occur, the evaluation returns at once a
    Future that does not occur, and has no effect.  In every case, a
    Future returned by the evaluation occurs only so: at the occurrence of
    [F], with the result of a payload that completed normally.  What a
    payload that throws leads to is left open.  [F] occurring with payload
    [Now.of(11 * 2)] makes the returned Future occur with 22. *)
Theorem plan_occurs_with_payload_result :
  (forall A (F : Future (Now A)) (t : Time),
      (forall tF m a es,
          F = Occurs tF m ->
          run m (Nat.max t tF) = (Normal a, es) ->
          (n <- plan F ;; run n) t = (Normal (Occurs (Nat.max t tF) a), es))
      /\ ((forall tF m, F <> Occurs tF m) ->
          exists G : Future A,
            (n <- plan F ;; run n) t = (Normal G, [])
            /\ forall t' a, G <> Occurs t' a)
      /\ (forall (G : Future A) es,
            (n <- plan F ;; run n) t = (Normal G, es) ->
            forall t' a,
              G = Occurs t' a
              <-> exists tF m es',
                  F = Occurs tF m /\ t' = Nat.max t tF
                  /\ run m t' = (Normal a, es')))
  /\ (forall t tF,
        (n <- plan (Occurs tF (OfNow (11 * 2))) ;; run n) t
        = (Normal (Occurs (Nat.max t tF) 22), [])).
Proof.
  split; [|reflexivity].
  intros A F t. unfold plan. rewrite bind_ret_l.
  change (run (PlanNow F) t) with (Future_map run F t). unfold Future_map.
  split; [|split].
  - intros tF m a es -> R. now rewrite R.
  - intros HF. destruct F as [|tF m|tF e].
    + exists Never. split; [reflexivity|discriminate].
    + now destruct (HF tF m).
    + exists (Failed tF e). split; [reflexivity|discriminate].
  - intros G es R t' a. destruct F as [|tF m|tF e].
    + injection R as <- _. split; [discriminate|].
      intros (tF & m & es' & H & _). discriminate H.
    + destruct (run m (Nat.max t tF)) as [[b|e] es0] eqn:E;
        injection R as <- _; split.
      * intros H. injection H as <- <-. now exists tF, m, es0.
      * intros (tF' & m' & es' & H & -> & R').
        injection H as <- <-. rewrite E in R'. now injection R' as <- _.
      * discriminate.
      * intros (tF' & m' & es' & H & -> & R').
        injection H as <- <-. rewrite E in R'. discriminate R'.
    + injection R as <- _. split; [discriminate|].
      intros (tF' & m & es' & H & _). discriminate H.
Qed.

Lemma plan_occurs_with_payload_result_witness :
  run (AsyncNow slow_action) (Nat.max 0 5)
  = (Normal (Occurs 15 22%Z), [EvRunIO 2 5])
  /\ (n <- plan (Occurs 5 (AsyncNow slow_action)) ;; run n) 0
     = (Normal (Occurs (Nat.max 0 5) (Occurs 15 22%Z)), [EvRunIO 2 5]).
Proof.
  split; [reflexivity|].
  apply (proj1 (proj1 plan_occurs_with_payload_result
                  (Future Z) (Occurs 5 (AsyncNow slow_action)) 0)
           5 (AsyncNow slow_action)); reflexivity.
Defined.

(** *** C9 *)

Lemma In_insert_occ {A} (x o : Time * A) (l : list (Time * A)) :
  In x (insert_occ o l) <-> x = o \/ In x l.
Proof.
  induction l as [|o' l IH]; simpl.
  - intuition.
  - destruct (fst o <? fst o'); simpl; [intuition|].
    rewrite IH. intuition.
Qed.

Lemma In_in_time_order {A} (x : Time * A) (l : list (Time * A)) :
  In x (in_time_order l) <-> In x l.
Proof.
  unfold in_time_order. rewrite (in_rev l).
  induction (rev l) as [|o r IH]; simpl; [reflexivity|].
  rewrite In_insert_occ, IH. intuition.
Qed.

(** The stream created from [s] is not [s]. *)
Lemma PerformIOOf_fresh (o : Origin) (t : Time) : PerformIOOf o t <> o.
Proof.
  revert t. induction o as [n|o IH t']; intros t; [discriminate|].
  intros H. injection H as H _. now apply (IH t').
Qed.

(** Each push received starts its action, once, at the instant of the
    push. *)
Lemma handle_pushes_effects {A} (pushes : list (Time * IO A)) :
  snd (handle_pushes PerformIOStream_push pushes)
  = map (fun o => EvRunIO (io_name (snd o)) (fst o)) pushes.
Proof.
  induction pushes as [|[ti io] rest IH]; [reflexivity|].
  simpl. destruct (handle_pushes PerformIOStream_push rest) as [out es].
  simpl in IH. subst es.
  unfold PerformIOStream_push, bind, runIO, ret.
  destruct (Promise_then _); reflexivity.
Qed.

(** What is forwarded to the children: the completion value of each
    action that completes, at the instant of its completion. *)
Lemma handle_pushes_forwarded {A} (pushes : list (Time * IO A)) t' (a : A) :
  In (t', a) (fst (handle_pushes PerformIOStream_push pushes))
  <-> exists ti io d,
      In (ti, io) pushes /\ io_exec io ti = Completes d a /\ t' = ti + d.
Proof.
  induction pushes as [|[ti io] rest IH].
  - simpl. split; [tauto|]. now intros (? & ? & ? & [] & _).
  - simpl. destruct (handle_pushes PerformIOStream_push rest) as [out es].
    simpl in IH.
    unfold PerformIOStream_push, bind, runIO, ret.
    destruct (io_exec io ti) as [|d v|d e] eqn:E; simpl.
    + rewrite IH. split.
      * intros (ti' & io' & d & H & R). exists ti', io', d. tauto.
      * intros (ti' & io' & d & [H | H] & R & T).
        -- injection H as <- <-. rewrite E in R. discriminate.
        -- now exists ti', io', d.
    + rewrite IH. split.
      * intros [H | (ti' & io' & d' & H & R)].
        -- injection H as <- <-. exists ti, io, d. tauto.
        -- exists ti', io', d'. tauto.
      * intros (ti' & io' & d' & [H | H] & R & T).
        -- injection H as <- <-. rewrite E in R. injection R as <- <-.
           left. now subst.
        -- right. now exists ti', io', d'.
    + rewrite IH. split.
      * intros (ti' & io' & d' & H & R). exists ti', io', d'. tauto.
      * intros (ti' & io' & d' & [H | H] & R & T).
        -- injection H as <- <-. rewrite E in R. discriminate.
        -- now exists ti', io', d'.
Qed.

Lemma Permutation_insert_occ {A} (o : Time * A) (l : list (Time * A)) :
  Permutation (insert_occ o l) (o :: l).
Proof.
  induction l as [|o' l IH]; simpl; [reflexivity|].
  destruct (fst o <? fst o'); [reflexivity|].
  rewrite IH. apply perm_swap.
Qed.

Lemma Permutation_in_time_order {A} (l : list (Time * A)) :
  Permutation (in_time_order l) l.
Proof.
  unfold in_time_order. rewrite (Permutation_rev l) at 2.
  induction (rev l) as [|o r IH]; simpl; [reflexivity|].
  now rewrite Permutation_insert_occ, IH.
Qed.

Lemma handle_pushes_completions {A} (pushes : list (Time * IO A)) :
  fst (handle_pushes PerformIOStream_push pushes)
  = flat_map completion_of pushes.
Proof.
  induction pushes as [|[ti io] rest IH]; [reflexivity|].
  simpl. destruct (handle_pushes PerformIOStream_push rest) as [out es].
  simpl in IH. subst out.
  unfold PerformIOStream_push, bind, runIO, ret, completion_of. simpl.
  destruct (io_exec io ti); reflexivity.
Qed.

(** Inserting an occurrence keeps the order of the instants. *)
Lemma insert_occ_sorted {A} (o : Time * A) (l : list (Time * A)) :
  StronglySorted (fun x y => fst x <= fst y) l ->
  StronglySorted (fun x y => fst x <= fst y) (insert_occ o l).
Proof.
  induction l as [|o' l IH]; intros H; simpl.
  - constructor; constructor.
  - inversion H as [|? ? Hl Ho']; subst.
    destruct (fst o <? fst o') eqn:E.
    + apply Nat.ltb_lt in E. constructor; [assumption|].
      constructor; [now apply Nat.lt_le_incl|].
      rewrite Forall_forall in Ho' |- *. intros x Hx.
      specialize (Ho' x Hx). cbv beta in Ho' |- *.
      apply Nat.le_trans with (fst o'); [now apply Nat.lt_le_incl|assumption].
    + apply Nat.ltb_ge in E. constructor; [now apply IH|].
      rewrite Forall_forall in Ho' |- *. intros x Hx.
      apply In_insert_occ in Hx as [->|Hx]; [assumption|now apply Ho'].
Qed.

Lemma in_time_order_sorted {A} (l : list (Time * A)) :
  StronglySorted (fun x y => fst x <= fst y) (in_time_order l).
Proof.
  unfold in_time_order.
  induction (rev l) as [|o r IH]; simpl; [constructor|].
  now apply insert_occ_sorted.
Qed.

(** The effects of creating the stream: the subscription, then one start
    of an action per push received. *)
Lemma PerformStreamNow_effects {A} (s : Stream (IO A)) (t : Time) :
  exists (out : Stream A) (es : list Event),
    run (PerformStreamNow s) t = (Normal out, es)
    /\ es = EvAddListener (s_origin s) t
            :: map (fun o => EvRunIO (io_name (snd o)) (fst o))
                 (filter (fun o => t <=? fst o) (s_occs s)).
Proof.
  unfold run, PerformStreamNow, Now_run, PerformIOStream, Stream_addListener.
  pose proof (handle_pushes_effects
                (filter (fun o => t <=? fst o) (s_occs s))) as HE.
  destruct (handle_pushes PerformIOStream_push
              (filter (fun o => t <=? fst o) (s_occs s))) as [out es].
  simpl in HE. subst es. eexists; eexists. split; reflexivity.
Qed.

(** C9: for every stream of actions [s], evaluating [performStream(s)] at
    an instant [t] completes at once with a new stream [out], distinct
    from [s], and installs a listener on [s], at [t].  From then on every
    occurrence pushed into [s] has its action started, once, at the
    instant of the push (these are all the effects, in the order of the
    pushes), and the occurrences of [out] are exactly the completion
    values of those actions, each at the instant its action completes:
    one occurrence per completion, none lost and none twice, in the order
    of the instants at which the completions become available. *)
Theorem performStream_executes_pushed_actions :
  forall A (s : Stream (IO A)) (t : Time),
    exists (out : Stream A) (es : list Event),
      (n <- performStream s ;; run n) t = (Normal out, es)
      /\ s_origin out = PerformIOOf (s_origin s) t
      /\ s_origin out <> s_origin s
      /\ es = EvAddListener (s_origin s) t
              :: map (fun o => EvRunIO (io_name (snd o)) (fst o))
                   (filter (fun o => t <=? fst o) (s_occs s))
      /\ (forall t' a,
            In (t', a) (s_occs out)
            <-> exists ti io d,
                In (ti, io) (s_occs s) /\ t <= ti
                /\ io_exec io ti = Completes d a /\ t' = ti + d)
      /\ Permutation (s_occs out)
           (flat_map completion_of
              (filter (fun o => t <=? fst o) (s_occs s)))
      /\ StronglySorted (fun x y => fst x <= fst y) (s_occs out).
Proof.
  intros A s t. unfold performStream. rewrite bind_ret_l.
  unfold run, PerformStreamNow, Now_run, PerformIOStream, Stream_addListener.
  pose proof (handle_pushes_effects
                (filter (fun o => t <=? fst o) (s_occs s))) as HE.
  pose proof (handle_pushes_forwarded
                (filter (fun o => t <=? fst o) (s_occs s))) as HF.
  pose proof (handle_pushes_completions
                (filter (fun o => t <=? fst o) (s_occs s))) as HC.
  destruct (handle_pushes PerformIOStream_push
              (filter (fun o => t <=? fst o) (s_occs s))) as [out es].
  simpl in HE, HF, HC. subst es.
  eexists; eexists. split; [reflexivity|]. simpl.
  split; [reflexivity|]. split; [apply PerformIOOf_fresh|].
  split; [reflexivity|].
  split; [|split;
             [rewrite <- HC; apply Permutation_in_time_order
             |apply in_time_order_sorted]].
  intros t' a. rewrite In_in_time_order, HF. split.
  - intros (ti & io & d & H & R & T).
    apply filter_In in H as [H L]. simpl in L. apply Nat.leb_le in L.
    now exists ti, io, d.
  - intros (ti & io & d & H & L & R & T).
    exists ti, io, d. repeat split; auto.
    apply filter_In. split; [assumption|]. now apply Nat.leb_le.
Qed.

(** The test "performStream runs io actions": the actions carried by the
    pushes 1, 2, 3 are started in that order and, when each completes at
    once with its number plus 2, the created stream has the occurrences
    3, 4, 5, in that order. *)
Example performStream_runs_io_actions :
  (n <- performStream
          (mkStream (External 0) [(0, impure 1); (1, impure 2); (2, impure 3)]) ;;
   run n) 0
  = (Normal (mkStream (PerformIOOf (External 0) 0)
               [(0, 3%Z); (1, 4%Z); (2, 5%Z)]),
     [EvAddListener (External 0) 0; EvRunIO 1 0; EvRunIO 2 1; EvRunIO 3 2]).
Proof. reflexivity. Qed.

(** Actions that complete out of order produce occurrences out of the
    order of the pushes. *)
Example performStream_completion_order :
  (n <- performStream
          (mkStream (External 0)
             [(0, mkIO 1 (fun _ => Completes 5 10%Z));
              (1, mkIO 2 (fun _ => Completes 1 20%Z))]) ;;
   run n) 0
  = (Normal (mkStream (PerformIOOf (External 0) 0) [(2, 20%Z); (5, 10%Z)]),
     [EvAddListener (External 0) 0; EvRunIO 1 0; EvRunIO 2 1]).
Proof. reflexivity. Qed.

(** *** Scenarios of the test suite *)

(** The test "mapTo": [Now.of(12).mapTo(4).run()] is [4]. *)
Example mapTo_4 :
  forall t, (c <- Now_mapTo (OfNow 12) 4 ;; run c) t = (Normal 4, []).
Proof. reflexivity. Qed.

(** The test "executes plan asynchronously": an action that completes
    with 11 after some delay, its Future mapped to [Now.of(n * 2)] and
    planned; the promise of [runNow] resolves with 22 when the action
    completes, not before. *)
Example plan_prog_resolves_22 :
  forall d,
    (prog <- ret (plan_prog (fun n => n * 2)%Z
                    (mkIO 0 (fun _ => Completes d 11%Z))) ;;
     runNow prog) 0
    = (Normal (Fulfilled d 22%Z), [EvRunIO 0 0]).
Proof. reflexivity. Qed.

(** *** Effects happen no earlier than the evaluation that causes them *)

Lemma causal_ret {A} (a : A) : causal (ret a).
Proof. intros t e []. Qed.

Lemma causal_bind {A B} (c : JS A) (k : A -> JS B) :
  causal c -> (forall a, causal (k a)) -> causal (bind c k).
Proof.
  intros Hc Hk t e. unfold bind, effects.
  specialize (Hc t). unfold effects in Hc.
  destruct (c t) as [[a|x] es]; simpl in *; [|apply Hc].
  specialize (Hk a t). unfold effects in Hk.
  destruct (k a t) as [r es']. simpl in *.
  rewrite in_app_iff. intros [H|H]; auto.
Qed.

Lemma causal_OfNow {A} (a : A) : causal (run (OfNow a)).
Proof. apply causal_ret. Qed.

Lemma causal_AsyncNow {A} (io : IO A) : causal (run (AsyncNow io)).
Proof.
  intros t e. unfold run, AsyncNow, Now_run, bind, runIO, fromPromise, ret.
  simpl. intros [<-|[]]. simpl. lia.
Qed.

Lemma causal_SampleNow {A} (b : Behavior A) : causal (run (SampleNow b)).
Proof.
  intros t e. simpl. intros [<-|[]]. simpl. lia.
Qed.

Lemma causal_PerformStreamNow {A} (s : Stream (IO A)) :
  causal (run (PerformStreamNow s)).
Proof.
  intros t e.
  destruct (PerformStreamNow_effects s t) as (out & es & R & E).
  unfold effects. rewrite R. simpl. subst es. intros [<-|H]; [simpl; lia|].
  apply in_map_iff in H as ([ti io] & <- & H).
  apply filter_In in H as [_ H]. simpl in *. now apply Nat.leb_le.
Qed.

(** A chain is causal when its parts are: the first computation, the call
    of the continuation, and the computations the continuation returns. *)
Lemma causal_ChainNow {A B} (first : Now A) (f : A -> JS (Now B)) :
  causal (run first) ->
  (forall a, causal (f a)) ->
  (forall a t n es, f a t = (Normal n, es) -> causal (run n)) ->
  causal (run (ChainNow first f)).
Proof.
  intros H1 H2 H3 t e. rewrite run_ChainNow. unfold bind, effects.
  pose proof (H1 t) as H1t. unfold effects in H1t.
  destruct (run first t) as [[a|x] es]; simpl in *; [|apply H1t].
  pose proof (H2 a t) as H2t. unfold effects in H2t.
  pose proof (H3 a t) as H3t.
  destruct (f a t) as [[n|x] es1]; simpl in *.
  - pose proof (H3t n es1 eq_refl t) as Hn. unfold effects in Hn.
    destruct (run n t) as [r es2]. simpl in *.
    rewrite !in_app_iff. intros [H|[H|H]]; auto.
  - rewrite in_app_iff. intros [H|H]; auto.
Qed.

(** A planned computation is evaluated no earlier than [plan] itself. *)
Lemma causal_PlanNow {A} (F : Future (Now A)) :
  (forall tF m, F = Occurs tF m -> causal (run m)) ->
  causal (run (PlanNow F)).
Proof.
  intros H t e. unfold run at 1. unfold PlanNow, Now_run at 1, Future_map.
  destruct F as [|tF m|tF x]; simpl; try tauto.
  pose proof (H tF m eq_refl (Nat.max t tF) e) as Hm. unfold effects in Hm.
  destruct (run m (Nat.max t tF)) as [[a|x] es]; simpl in *;
    intros Hin; specialize (Hm Hin); lia.
Qed.

(** ** Further properties of Now.ts *)

(** *** Functor and join laws of [map], [mapTo] and [flatten] *)

(** Running [m.map(x => x)] evaluates identically to running [m]. *)
Theorem Now_map_identity :
  forall A (m : Now A),
    same_evaluation (c <- Now_map m (fun a => ret a) ;; run c) (run m).
Proof.
  intros A m t. unfold Now_map, Now_chain, Now_of.
  rewrite bind_ret_l, run_ChainNow.
  transitivity (bind (run m) ret t); [|apply bind_ret_r].
  apply bind_ext. intros a. js_norm. reflexivity.
Qed.

(** Running [m.map(f).map(g)] evaluates identically to running
    [m.map(a => g(f(a)))]: [m] is run once, then [f], then [g]. *)
Theorem Now_map_compose :
  forall A B C (m : Now A) (f : A -> JS B) (g : B -> JS C),
    same_evaluation
      (c1 <- Now_map m f ;; c2 <- Now_map c1 g ;; run c2)
      (c <- Now_map m (fun a => b <- f a ;; g b) ;; run c).
Proof.
  intros A B C m f g t. unfold Now_map, Now_chain, Now_of.
  rewrite !bind_ret_l, !run_ChainNow.
  change (run (ChainNow m (fun a => b <- f a ;; ret (OfNow b))))
    with (a <- run m ;; n <- (b <- f a ;; ret (OfNow b)) ;; run n).
  js_norm. apply bind_ext. intros a.
  js_norm. apply bind_ext. intros b.
  js_norm. unfold run at 1. simpl Now_run.
  js_norm. apply bind_ext. intros c.
  js_norm. reflexivity.
Qed.

(** Running [m.mapTo(b)] still runs [m], with its effects and its throws;
    only the value is replaced by [b]. *)
Theorem Now_mapTo_runs_receiver :
  forall A B (m : Now A) (b : B),
    same_evaluation (c <- Now_mapTo m b ;; run c) (_ <- run m ;; ret b).
Proof.
  intros A B m b t. unfold Now_mapTo, Now_chain, Now_of.
  rewrite bind_ret_l, run_ChainNow.
  apply bind_ext. intros a. now rewrite bind_ret_l.
Qed.

(** [chain] is [flatten] after [map]: running [m.chain(f)] evaluates
    identically to running [this.flatten(m.map(f))], for any receiver. *)
Theorem chain_is_flatten_of_map :
  forall A B (this : Now B) (m : Now A) (f : A -> JS (Now B)),
    same_evaluation
      (mm <- Now_map m f ;; c <- Now_flatten this mm ;; run c)
      (c <- Now_chain m f ;; run c).
Proof.
  intros A B this m f t. unfold Now_flatten, Now_map, Now_chain, Now_of.
  rewrite !bind_ret_l, !run_ChainNow.
  change (run (ChainNow m (fun a => b <- f a ;; ret (OfNow b))))
    with (a <- run m ;; n <- (b <- f a ;; ret (OfNow b)) ;; run n).
  js_norm. apply bind_ext. intros a.
  js_norm. apply bind_ext. intros n.
  js_norm. unfold run at 1. simpl Now_run.
  js_norm. reflexivity.
Qed.

(** [flatten] undoes [of]: running [this.flatten(Now.of(n))] evaluates
    identically to running [n], and running [this.flatten(m.map(of))]
    evaluates identically to running [m]. *)
Theorem flatten_of :
  forall A (this : Now A),
    (forall n : Now A,
        same_evaluation (c <- Now_flatten this (OfNow n) ;; run c) (run n))
    /\ (forall m : Now A,
        same_evaluation
          (mm <- Now_map m (fun a => Now_of a) ;;
           c <- Now_flatten this mm ;; run c)
          (run m)).
Proof.
  intros A this. split.
  - intros n t. unfold Now_flatten, Now_chain.
    rewrite bind_ret_l, run_ChainNow.
    unfold run at 1. simpl Now_run. now rewrite !bind_ret_l.
  - intros m t. unfold Now_flatten, Now_map, Now_chain, Now_of.
    rewrite !bind_ret_l, !run_ChainNow.
    change (run (ChainNow m (fun a => b <- ret (OfNow a) ;; ret (OfNow b))))
      with (a <- run m ;;
            n <- (b <- ret (OfNow a) ;; ret (OfNow b)) ;; run n).
    js_norm.
    transitivity (bind (run m) ret t); [|apply bind_ret_r].
    apply bind_ext. intros a. js_norm.
    unfold run. simpl Now_run. js_norm. reflexivity.
Qed.

(** *** Sequencing in [ChainNow.run] *)

(** When running the first computation throws, running the chain throws
    the same value with the same effects: the continuation is not
    called. *)
Lemma chain_first_throws :
  forall A B (first : Now A) (f : A -> JS (Now B)) (t : Time) e es,
    run first t = (Throw e, es) ->
    run (ChainNow first f) t = (Throw e, es).
Proof.
  intros A B first f t e es H. rewrite run_ChainNow. unfold bind.
  now rewrite H.
Qed.

(** A throw of the receiver passes through [chain], [map] and [mapTo]:
    when running [m] throws, running [m.chain(f)], [m.map(g)] and
    [m.mapTo(b)] throws the same value with the same effects, and neither
    [f] nor [g] is called. *)
Theorem receiver_throw_skips_callback :
  forall A B (m : Now A) (f : A -> JS (Now B)) (g : A -> JS B) (b : B)
         (t : Time) e es,
    run m t = (Throw e, es) ->
    (c <- Now_chain m f ;; run c) t = (Throw e, es)
    /\ (c <- Now_map m g ;; run c) t = (Throw e, es)
    /\ (c <- Now_mapTo m b ;; run c) t = (Throw e, es).
Proof.
  intros A B m f g b t e es H.
  unfold Now_mapTo, Now_map, Now_chain. rewrite !bind_ret_l.
  repeat split; now apply chain_first_throws.
Qed.

Lemma receiver_throw_skips_callback_witness :
  run (ChainNow (AsyncNow failing_action)
         (fun _ : Future Z => @throw (Now Z) TypeError)) 3
  = (Throw TypeError, [EvRunIO 7 3])
  /\ (c <- Now_map
            (ChainNow (AsyncNow failing_action)
               (fun _ : Future Z => @throw (Now Z) TypeError))
            (fun n : Z => ret (n + 1)%Z) ;;
      run c) 3
     = (Throw TypeError, [EvRunIO 7 3]).
Proof.
  split; [reflexivity|].
  apply (receiver_throw_skips_callback
           (ChainNow (AsyncNow failing_action)
              (fun _ : Future Z => @throw (Now Z) TypeError))
           (fun n : Z => Now_of (n + 1)%Z)
           (fun n : Z => ret (n + 1)%Z) 0%Z 3).
  reflexivity.
Defined.

(** When every step completes normally, the effects of running a chain
    are those of the first computation, then those of the call of the
    continuation, then those of the computation it returns, and the
    completion is that of the last. *)
Theorem chain_effects_in_order :
  forall A B (first : Now A) (f : A -> JS (Now B)) (t : Time)
         a es1 n es2 r es3,
    run first t = (Normal a, es1) ->
    f a t = (Normal n, es2) ->
    run n t = (r, es3) ->
    run (ChainNow first f) t = (r, es1 ++ es2 ++ es3).
Proof.
  intros A B first f t a es1 n es2 r es3 H1 H2 H3.
  rewrite run_ChainNow. unfold bind. now rewrite H1, H2, H3.
Qed.

Lemma chain_effects_in_order_witness :
  run (ChainNow (AsyncNow slow_action) (fun _ => async failing_action)) 4
  = (Normal (Failed 7 (UserError 1)), [EvRunIO 2 4] ++ [] ++ [EvRunIO 7 4]).
Proof.
  apply (chain_effects_in_order (AsyncNow slow_action)
           (fun _ => async failing_action) 4
           (a := Occurs 14 22%Z) (n := AsyncNow failing_action));
    reflexivity.
Defined.

(** Chained [async]s do not wait for one another: the second action is
    started at the very instant of the first, whatever the first leads
    to, and the chain yields the Future of the second.  In particular an
    action chained with itself is started twice. *)
Theorem chained_asyncs_start_together :
  forall A B (a1 : IO A) (a2 : IO B) (t : Time),
    run (ChainNow (AsyncNow a1) (fun _ => async a2)) t
    = (fst (run (AsyncNow a2) t),
       [EvRunIO (io_name a1) t; EvRunIO (io_name a2) t]).
Proof.
  intros A B a1 a2 t. reflexivity.
Qed.

(** *** Edge cases of [lift] *)

(** Called with at least one computation, [lift] never throws and has no
    effect, however many computations are passed: it returns a
    computation when the declared parameter count of the function is 1, 2
    or 3, and undefined otherwise. *)
Theorem lift_returns_computation_iff :
  forall V (this : Now V) (f : JSFunction V) (m0 : Now V)
         (ms : list (Now V)) (t : Time),
    exists o : option (Now V),
      Now_lift this f (m0 :: ms) t = (Normal o, [])
      /\ ((exists r, o = Some r) <-> 1 <= f_length f <= 3)
      /\ (o = None <-> f_length f < 1 \/ 3 < f_length f).
Proof.
  intros V this f m0 ms t. unfold Now_lift.
  change (member (m0 :: ms) 0) with (ret m0). rewrite bind_ret_l.
  destruct (f_length f) as [|[|[|[|k]]]];
    eexists; (split; [reflexivity|]); split; split;
    try lia; try discriminate;
    try (intros _; eexists; reflexivity);
    try (intros _; reflexivity);
    intros (r & H); discriminate H.
Qed.

(** With fewer computations than declared parameters, [lift] still
    returns a computation; the missing argument shows only when that
    computation is run: the computations present are run in order, then a
    TypeError is thrown, and the function is never called. *)
Theorem lift_too_few_computations_throws_when_run :
  forall V (this m1 m2 : Now V) (call : list V -> JS V),
    (exists r,
        (forall t, Now_lift this (mkFunction 2 call) [m1] t
                   = (Normal (Some r), []))
        /\ same_evaluation (run r) (_ <- run m1 ;; throw TypeError))
    /\ (exists r,
        (forall t, Now_lift this (mkFunction 3 call) [m1] t
                   = (Normal (Some r), []))
        /\ same_evaluation (run r) (_ <- run m1 ;; throw TypeError))
    /\ (exists r,
        (forall t, Now_lift this (mkFunction 3 call) [m1; m2] t
                   = (Normal (Some r), []))
        /\ same_evaluation (run r)
             (_ <- run m1 ;; _ <- run m2 ;; throw TypeError)).
Proof.
  intros V this m1 m2 call.
  split; [|split]; eexists; (split; [intros t; reflexivity|]); intros t.
  - rewrite run_ChainNow. apply bind_ext. intros a.
    change (member [m1] 1) with (@throw (Now V) TypeError). reflexivity.
  - rewrite run_ChainNow. apply bind_ext. intros a.
    change (member [m1] 1) with (@throw (Now V) TypeError). reflexivity.
  - rewrite run_ChainNow. apply bind_ext. intros a.
    change (member [m1; m2] 1) with (ret m2).
    unfold Now_chain. js_norm. rewrite run_ChainNow.
    apply bind_ext. intros b.
    change (member [m1; m2] 2) with (@throw (Now V) TypeError). reflexivity.
Qed.

(** *** The driver [runNow] *)

(** [runNow] never throws and has no effect of its own: it returns a
    promise, and the effects are those of running the computation. *)
Theorem runNow_never_throws :
  forall A (now : Now (Future A)) (t : Time),
    exists p : Promise A, runNow now t = (Normal p, effects (run now t)).
Proof.
  intros A now t.
  unfold runNow, Promise_new, run, bind, Future_subscribe, effects.
  destruct (Now_run now t) as [[[|t' a|t' e]|e] es]; simpl;
    rewrite ?app_nil_r; eexists; reflexivity.
Qed.

(** The promise of [runNow(async(a))], evaluated at [t], is fulfilled with
    [v] exactly when the action started at [t] completes with [v], at the
    instant of the completion; it is never rejected; the action is
    started once, at [t]. *)
Theorem runNow_async_fulfilled_iff_completes :
  forall A (a : IO A) (t : Time),
    exists p : Promise A,
      (n <- async a ;; runNow n) t = (Normal p, [EvRunIO (io_name a) t])
      /\ (forall t' v,
            p = Fulfilled t' v
            <-> exists d, io_exec a t = Completes d v /\ t' = t + d)
      /\ (forall t' e, p <> Rejected t' e).
Proof.
  intros A a t. unfold async. rewrite bind_ret_l.
  unfold runNow, Promise_new, AsyncNow, Now_run, bind, runIO, fromPromise,
    Future_subscribe, ret.
  destruct (io_exec a t) as [|d v|d e] eqn:E; simpl;
    eexists; (split; [reflexivity|]); (split; [|discriminate]);
    intros t' v'; split.
  - discriminate.
  - intros (d & H & _). discriminate.
  - intros H. injection H as <- <-. exists d. split; [reflexivity|lia].
  - intros (d' & H & ->). injection H as <- <-. f_equal. lia.
  - discriminate.
  - intros (d' & H & _). discriminate.
Qed.

(** [runNow(plan(F))]: when [F] occurs and the evaluation of its payload
    at that instant completes normally, the promise is fulfilled at that
    instant with the result of the payload, and the effects are those of
    the payload. *)
Theorem runNow_plan_fulfilled_with_payload_result :
  forall A (t tF : Time) (m : Now A) a es,
    run m (Nat.max t tF) = (Normal a, es) ->
    (n <- plan (Occurs tF m) ;; runNow n) t
    = (Normal (Fulfilled (Nat.max t tF) a), es).
Proof.
  intros A t tF m a es H. unfold plan. rewrite bind_ret_l.
  unfold runNow, Promise_new, PlanNow, Now_run at 1, bind, Future_map,
    Future_subscribe.
  rewrite H. simpl. rewrite app_nil_r. f_equal. f_equal. f_equal. lia.
Qed.

Lemma runNow_plan_fulfilled_with_payload_result_witness :
  run (SampleNow (mkBehavior 4 (fun t => Z.of_nat t))) (Nat.max 2 6)
  = (Normal 6%Z, [EvAt 4 6])
  /\ (n <- plan (Occurs 6 (SampleNow (mkBehavior 4 (fun t => Z.of_nat t)))) ;;
      runNow n) 2
     = (Normal (Fulfilled (Nat.max 2 6) 6%Z), [EvAt 4 6]).
Proof.
  split; [reflexivity|].
  apply (runNow_plan_fulfilled_with_payload_result 2 6
           (SampleNow (mkBehavior 4 (fun t => Z.of_nat t)))).
  reflexivity.
Defined.

(** The program of the test "executes plan asynchronously", for any
    action and any function in the place of [n * 2]: the action is
    started once, at once; the promise is fulfilled with the function
    applied to the value of the action, at the instant the action
    completes, and stays pending when the action hangs or fails. *)
Theorem plan_prog_resolves_with_double :
  forall (Num : Type) (times2 : Num -> Num) (fn : IO Num) (t : Time),
    runNow (plan_prog times2 fn) t
    = (Normal match io_exec fn t with
              | Completes d v => Fulfilled (t + d) (times2 v)
              | _ => Pending
              end,
       [EvRunIO (io_name fn) t]).
Proof.
  intros Num times2 fn t.
  unfold runNow, Promise_new, plan_prog, ChainNow, AsyncNow, Now_run, bind,
    runIO, fromPromise, Future_map, plan, PlanNow, Now_chain, Now_of,
    Future_subscribe, run, ret, Now_run.
  destruct (io_exec fn t) as [|d v|d e]; simpl; try reflexivity.
  do 3 f_equal. lia.
Qed.

(** *** The stream created by [performStream] *)

(** The stream created by [performStream(s)] at [t] has one occurrence
    for each push received whose action completes, and no other: nothing
    is lost or duplicated, an action that hangs or fails adds nothing and
    does not keep later completions from being delivered. *)
Theorem performStream_one_occurrence_per_completion :
  forall A (s : Stream (IO A)) (t : Time),
    exists (out : Stream A) (es : list Event),
      run (PerformStreamNow s) t = (Normal out, es)
      /\ Permutation (s_occs out)
           (flat_map completion_of
              (filter (fun o => t <=? fst o) (s_occs s))).
Proof.
  intros A s t.
  unfold run, PerformStreamNow, Now_run, PerformIOStream, Stream_addListener.
  pose proof (handle_pushes_completions
                (filter (fun o => t <=? fst o) (s_occs s))) as HC.
  destruct (handle_pushes PerformIOStream_push
              (filter (fun o => t <=? fst o) (s_occs s))) as [out es].
  simpl in HC. subst out.
  eexists; eexists. split; [reflexivity|]. simpl.
  apply Permutation_in_time_order.
Qed.

(** *** Causality is kept by [chain] and [plan] *)

Lemma causal_ChainNow_witness :
  causal (run (ChainNow (AsyncNow slow_action)
                 (fun _ => sample (mkBehavior 4 (fun t => Z.of_nat t))))).
Proof.
  apply (causal_ChainNow (AsyncNow slow_action)
           (fun _ => sample (mkBehavior 4 (fun t => Z.of_nat t)))).
  - apply causal_AsyncNow.
  - intros a. apply causal_ret.
  - intros a t n es H. injection H as <- _. apply causal_SampleNow.
Defined.

Lemma causal_PlanNow_witness :
  causal (run (PlanNow (Occurs 5 (AsyncNow slow_action)))).
Proof.
  apply (causal_PlanNow (F := Occurs 5 (AsyncNow slow_action))).
  intros tF m H. injection H as _ <-. apply causal_AsyncNow.
Defined.
